(** * gspotty: the command dispatcher of cmd/gspotty/main.go and the
      companion script scripts/play

    The program is a thin command-line front end: it checks two environment
    variables, parses its flags, and hands over to one function of the
    packages internal/cli, internal/menu or internal/profile.  The model
    below follows main.go statement by statement.  A run is a list of
    observable events (text written to a standard stream, calls into the
    other packages) together with the way the process ends. *)

From Stdlib Require Import ZArith Ascii.
From stdpp Require Import base option list strings gmap sorting.

Open Scope Z_scope.

(** ** Processes: an event trace with an early exit *)

Module Process.

Inductive Stream := Stdout | Stderr.

(** The calls main makes into the rest of the repository, with the
    arguments main passes (ctx and client are the same values in every
    call and are left out). *)
Inductive ExtCall :=
| GetSpotifyClient
| GetProfile (userID : string)
| StopCurrentlyPlaying
| NewInteractiveMenu
| SetKeepPlayingFlag (keep : bool)
| MenuRun
| SearchTracks (query artist : string) (limit : Z) (details keep auto : bool)
| SearchAlbums (query : string) (limit : Z) (details keep auto : bool)
| SearchPlaylists (query : string) (limit : Z) (details keep auto : bool)
| SearchTracksWithMenu (query artist : string) (limit : Z)
                       (details keep auto : bool)
| SearchAlbumsWithMenu (query : string) (limit : Z) (details keep auto : bool)
| SearchPlaylistsWithMenu (query : string) (limit : Z)
                          (details keep auto : bool).

Inductive Event :=
| Print (fd : Stream) (text : string)
| Call (c : ExtCall).

(** How a computation ends: it hands a value to its continuation, or the
    process is gone (os.Exit). *)
Inductive Completion (A : Type) :=
| Done (a : A)
| Exited (code : Z).
Arguments Done {A} a.
Arguments Exited {A} code.

Definition Proc (A : Type) : Type := list Event * Completion A.

Definition trace {A} (p : Proc A) : list Event := p.1.
Definition completion {A} (p : Proc A) : Completion A := p.2.

#[global] Instance Proc_ret : MRet Proc := λ A a, ([], Done a).

#[global] Instance Proc_bind : MBind Proc := λ A B f p,
  match p with
  | (t, Done a) => let '(t', c) := f a in (t ++ t', c)
  | (t, Exited code) => (t, Exited code)
  end.

Definition emit (e : Event) : Proc unit := ([e], Done ()).

(** os.Exit(code): nothing after it runs. *)
Definition os_Exit {A} (code : Z) : Proc A := ([], Exited code).

(** A call into another package that comes back with result [r]. *)
Definition call {A} (c : ExtCall) (r : A) : Proc A := ([Call c], Done r).

(** The exit status the operating system sees: a Go program whose main
    returns exits with status 0; os.Exit(code) exits with [code]. *)
Definition exitStatus {A} (p : Proc A) : Z :=
  match p.2 with
  | Done _ => 0
  | Exited code => code
  end.

Definition isPrint (fd : Stream) (e : Event) : bool :=
  match e, fd with
  | Print Stdout _, Stdout | Print Stderr _, Stderr => true
  | _, _ => false
  end.

Definition isCall (e : Event) : bool :=
  match e with Call _ => true | Print _ _ => false end.

Definition isSearchCall (c : ExtCall) : bool :=
  match c with
  | SearchTracks _ _ _ _ _ _ | SearchAlbums _ _ _ _ _
  | SearchPlaylists _ _ _ _ _ | SearchTracksWithMenu _ _ _ _ _ _
  | SearchAlbumsWithMenu _ _ _ _ _ | SearchPlaylistsWithMenu _ _ _ _ _ => true
  | _ => false
  end.

Definition isSearch (e : Event) : bool :=
  match e with Call c => isSearchCall c | Print _ _ => false end.

(** The calls of a trace, in order. *)
Definition calls (t : list Event) : list ExtCall :=
  omap (λ e, match e with Call c => Some c | Print _ _ => None end) t.

(** Everything written to one stream, in order. *)
Definition written (fd : Stream) (t : list Event) : list string :=
  omap (λ e, match e with
             | Print fd' s => if isPrint fd e then Some s else None
             | Call _ => None
             end) t.

(** The text that appears on one stream. *)
Definition output (fd : Stream) (t : list Event) : string :=
  String.concat "" (written fd t).

End Process.
Export Process.

(** ** Text helpers of package fmt *)

Definition nl : string := String "010"%char EmptyString.
Definition tab : string := String "009"%char EmptyString.
Definition dq : string := String "034"%char EmptyString.
Definition backquote : Ascii.ascii := "096"%char.

(** fmt.Println(s) *)
Definition Println (s : string) : Proc unit := emit (Print Stdout (s +:+ nl)).

(** fmt.Fprintf(os.Stderr, ...) and fmt.Fprint(os.Stderr, ...), with the
    format already filled in *)
Definition Eprint (s : string) : Proc unit := emit (Print Stderr s).

(** A Go [if c { body }] with no else branch. *)
Definition when (c : bool) (body : Proc unit) : Proc unit :=
  if c then body else mret ().

(** s == "" on Go strings *)
Definition isEmpty (s : string) : bool := bool_decide (s = "").

(** for _, x := range l { body(x) } *)
Fixpoint forEach {A} (l : list A) (body : A → Proc unit) : Proc unit :=
  match l with
  | [] => mret ()
  | x :: l' => body x;; forEach l' body
  end.

(** ** The part of package flag that main.go's usage function relies on *)

Module GoFlag.

Inductive Kind := BoolFlag | IntFlag | StringFlag.

(** flag.Flag: name, help text, default value as text; [kind] stands for
    the dynamic type of its Value. *)
Record Flag := {
  Name : string;
  Usage : string;
  DefValue : string;
  kind : Kind
}.

(** Split a string at the first occurrence of a byte. *)
Fixpoint cut (c : Ascii.ascii) (s : string) : option (string * string) :=
  match s with
  | EmptyString => None
  | String a s' =>
      if Ascii.eqb a c then Some (EmptyString, s')
      else (λ lr, (String a lr.1, lr.2)) <$> cut c s'
  end.

Definition typeName (k : Kind) : string :=
  match k with
  | BoolFlag => ""
  | IntFlag => "int"
  | StringFlag => "string"
  end.

(** flag.UnquoteUsage: a back-quoted word of the help text names the
    argument; without one the name is that of the value's type, empty for
    a boolean flag. *)
Definition UnquoteUsage (f : Flag) : string * string :=
  match cut backquote (Usage f) with
  | Some (before, rest) =>
      match cut backquote rest with
      | Some (name, after) => (name, before +:+ name +:+ after)
      | None => (typeName (kind f), Usage f)
      end
  | None => (typeName (kind f), Usage f)
  end.

Fixpoint insertFlag (f : Flag) (l : list Flag) : list Flag :=
  match l with
  | [] => [f]
  | g :: l' =>
      if String.leb (Name f) (Name g) then f :: l else g :: insertFlag f l'
  end.

(** flag.VisitAll visits the defined flags in lexicographical order of
    their names. *)
Definition sortFlags (l : list Flag) : list Flag := foldr insertFlag [] l.

Definition VisitAll (formal : list Flag) (fn : Flag → Proc unit) : Proc unit :=
  forEach (sortFlags formal) fn.

End GoFlag.

(** ** cmd/gspotty/main.go *)

Module Main.
Import GoFlag.

(** The flag variables of main after flag.Parse. *)
Record Flags := {
  searchType : string;
  searchQuery : string;
  artistName : string;
  limit : Z;
  showDetails : bool;
  interactive : bool;
  returnToMenu : bool;
  keepPlaying : bool;
  autoPlay : bool;
  stopPlayback : bool;
  userID : string
}.

(** What flag.Parse does with the command line.  The default flag set
    uses flag.ExitOnError, so flag.Parse comes back only with a command
    line it accepts.  On one it rejects (an undefined flag, a missing or
    malformed value) it has an error message; on -h or -help, which main
    does not define, it has none. *)
Inductive ParseResult :=
| Parsed (f : Flags)
| ParseFailed (message : string)
| ParseHelp.

(** Everything outside main.go that one run depends on. *)
Record Invocation := {
  environ : gmap string string;   (* the process environment *)
  arg0 : string;                  (* os.Args[0] *)
  parse : ParseResult;            (* flag.Parse on os.Args[1:] *)
  menuErr : option string         (* the error interactiveMenu.Run returns *)
}.

(** os.Getenv: the value, or the empty string for an unset variable. *)
Definition os_Getenv (env : gmap string string) (key : string) : string :=
  default "" (env !! key).

Definition rule : string :=
  "=================================================================".

Definition checkEnvironmentVariables (env : gmap string string) : Proc unit :=
  let clientID := os_Getenv env "SPOTIFY_ID" in
  let clientSecret := os_Getenv env "SPOTIFY_SECRET" in
  if isEmpty clientID || isEmpty clientSecret then
    Println rule;;
    Println "ERROR: Spotify API credentials not properly configured";;
    Println rule;;
    when (isEmpty clientID)
      (Println "Missing SPOTIFY_ID environment variable");;
    when (isEmpty clientSecret)
      (Println "Missing SPOTIFY_SECRET environment variable");;
    Println (nl +:+ "To set up your credentials:");;
    Println "1. Go to https://developer.spotify.com/dashboard/";;
    Println "2. Log in and create a new app";;
    Println "3. Set the redirect URI to http://localhost:8888/callback in your app settings";;
    Println "4. Set these environment variables with your credentials:";;
    Println "   export SPOTIFY_ID=your_client_id";;
    Println "   export SPOTIFY_SECRET=your_client_secret";;
    Println rule;;
    os_Exit 1
  else mret ().

(** The flags main defines, in the order of the source: the one-letter
    flags with their help texts, then the long names without. *)
Definition formal : list Flag := [
  {| Name := "t"; DefValue := "track"; kind := StringFlag;
     Usage := "Type of search: track, album, or playlist" |};
  {| Name := "q"; DefValue := ""; kind := StringFlag;
     Usage := "Search query" |};
  {| Name := "a"; DefValue := ""; kind := StringFlag;
     Usage := "Artist name to filter results (only for track search)" |};
  {| Name := "l"; DefValue := "5"; kind := IntFlag;
     Usage := "Number of results to display" |};
  {| Name := "d"; DefValue := "false"; kind := BoolFlag;
     Usage := "Show detailed information about the results" |};
  {| Name := "i"; DefValue := "false"; kind := BoolFlag;
     Usage := "Run in interactive mode with a menu interface" |};
  {| Name := "r"; DefValue := "false"; kind := BoolFlag;
     Usage := "Return to interactive menu after viewing search results" |};
  {| Name := "k"; DefValue := "false"; kind := BoolFlag;
     Usage := "Keep music playing when exiting the player interface" |};
  {| Name := "p"; DefValue := "false"; kind := BoolFlag;
     Usage := "Automatically play the first result and exit" |};
  {| Name := "s"; DefValue := "false"; kind := BoolFlag;
     Usage := "Stop the currently playing track" |};
  {| Name := "u"; DefValue := ""; kind := StringFlag;
     Usage := "Spotify user ID to look up profile information" |};
  {| Name := "type"; DefValue := "track"; kind := StringFlag; Usage := "" |};
  {| Name := "query"; DefValue := ""; kind := StringFlag; Usage := "" |};
  {| Name := "artist"; DefValue := ""; kind := StringFlag; Usage := "" |};
  {| Name := "limit"; DefValue := "5"; kind := IntFlag; Usage := "" |};
  {| Name := "details"; DefValue := "false"; kind := BoolFlag; Usage := "" |};
  {| Name := "interactive"; DefValue := "false"; kind := BoolFlag;
     Usage := "" |};
  {| Name := "return-to-menu"; DefValue := "false"; kind := BoolFlag;
     Usage := "" |};
  {| Name := "keep-playing"; DefValue := "false"; kind := BoolFlag;
     Usage := "" |};
  {| Name := "auto-play"; DefValue := "false"; kind := BoolFlag;
     Usage := "" |};
  {| Name := "stop"; DefValue := "false"; kind := BoolFlag; Usage := "" |};
  {| Name := "user"; DefValue := ""; kind := StringFlag; Usage := "" |}
].

(** The values the flag variables hold when the command line sets none. *)
Definition defaultFlags : Flags := {|
  searchType := "track"; searchQuery := ""; artistName := ""; limit := 5;
  showDetails := false; interactive := false; returnToMenu := false;
  keepPlaying := false; autoPlay := false; stopPlayback := false;
  userID := ""
|}.

(** The body of the function literal passed to flag.VisitAll. *)
Definition usageLine (f : Flag) : Proc unit :=
  when (negb (isEmpty (Usage f)))
    (Eprint ("  -" +:+ Name f);;
     let '(name, usage) := UnquoteUsage f in
     when (0 <? String.length name)%nat (Eprint (" " +:+ name));;
     (if (String.length (Name f) <=? 1)%nat
         && bool_decide (DefValue f = "false")
      then Eprint (tab +:+ usage)
      else
        Eprint (nl +:+ tab +:+ usage);;
        when (negb (isEmpty (DefValue f)))
          (when (negb (bool_decide (DefValue f = "0"))
                 && negb (bool_decide (DefValue f = "false")))
             (Eprint (" (default " +:+ DefValue f +:+ ")"))));;
     Eprint nl).

Definition example (prog args : string) : Proc unit :=
  Eprint ("  " +:+ prog +:+ args +:+ nl).

Definition bohemian : string := dq +:+ "Bohemian Rhapsody" +:+ dq.

(** flag.Usage as main sets it. *)
Definition flag_Usage (prog : string) : Proc unit :=
  Eprint ("Usage: " +:+ prog +:+ " [options]" +:+ nl +:+ nl);;
  Eprint ("A CLI tool to search and play Spotify tracks, albums, and playlists."
          +:+ nl +:+ nl);;
  Eprint ("Options:" +:+ nl);;
  VisitAll formal usageLine;;
  Eprint (nl +:+ "Examples:" +:+ nl);;
  example prog (" -t track -q " +:+ bohemian);;
  example prog (" -t track -q " +:+ bohemian +:+ " -a " +:+ dq +:+ "Queen" +:+ dq);;
  example prog (" -t album -q " +:+ dq +:+ "Dark Side of the Moon" +:+ dq +:+ " -l 3");;
  example prog (" -t playlist -q " +:+ dq +:+ "workout" +:+ dq +:+ " -d");;
  example prog " -i";;
  example prog (" -q " +:+ bohemian +:+ " -r");;
  example prog (" -q " +:+ bohemian +:+ " -k");;
  example prog (" -q " +:+ bohemian +:+ " -p");;
  example prog " -s";;
  example prog " -u spotify".

(** The usage text as it reaches the terminal, line by line, for a program
    started as [prog]: the intro, the eleven one-letter options in
    alphabetical order, the examples. *)
Definition usageText (prog : string) : string :=
  String.concat nl [
    "Usage: " +:+ prog +:+ " [options]";
    "";
    "A CLI tool to search and play Spotify tracks, albums, and playlists.";
    "";
    "Options:";
    "  -a string";
    tab +:+ "Artist name to filter results (only for track search)";
    "  -d" +:+ tab +:+ "Show detailed information about the results";
    "  -i" +:+ tab +:+ "Run in interactive mode with a menu interface";
    "  -k" +:+ tab +:+ "Keep music playing when exiting the player interface";
    "  -l int";
    tab +:+ "Number of results to display (default 5)";
    "  -p" +:+ tab +:+ "Automatically play the first result and exit";
    "  -q string";
    tab +:+ "Search query";
    "  -r" +:+ tab +:+ "Return to interactive menu after viewing search results";
    "  -s" +:+ tab +:+ "Stop the currently playing track";
    "  -t string";
    tab +:+ "Type of search: track, album, or playlist (default track)";
    "  -u string";
    tab +:+ "Spotify user ID to look up profile information";
    "";
    "Examples:";
    "  " +:+ prog +:+ " -t track -q " +:+ dq +:+ "Bohemian Rhapsody" +:+ dq;
    "  " +:+ prog +:+ " -t track -q " +:+ dq +:+ "Bohemian Rhapsody" +:+ dq
      +:+ " -a " +:+ dq +:+ "Queen" +:+ dq;
    "  " +:+ prog +:+ " -t album -q " +:+ dq +:+ "Dark Side of the Moon" +:+ dq
      +:+ " -l 3";
    "  " +:+ prog +:+ " -t playlist -q " +:+ dq +:+ "workout" +:+ dq +:+ " -d";
    "  " +:+ prog +:+ " -i";
    "  " +:+ prog +:+ " -q " +:+ dq +:+ "Bohemian Rhapsody" +:+ dq +:+ " -r";
    "  " +:+ prog +:+ " -q " +:+ dq +:+ "Bohemian Rhapsody" +:+ dq +:+ " -k";
    "  " +:+ prog +:+ " -q " +:+ dq +:+ "Bohemian Rhapsody" +:+ dq +:+ " -p";
    "  " +:+ prog +:+ " -s";
    "  " +:+ prog +:+ " -u spotify";
    ""
  ].

(** flag.Parse inside main: the parsed flags, or the end of the process.
    A rejected command line: package flag writes its message with
    Fprintln, calls flag.Usage, which is the function main has set, and
    ends the process with os.Exit(2).  A help request: flag.Usage only,
    then os.Exit(0). *)
Definition flag_Parse (prog : string) (r : ParseResult) : Proc Flags :=
  match r with
  | Parsed f => mret f
  | ParseFailed message =>
      Eprint (message +:+ nl);; flag_Usage prog;; os_Exit 2
  | ParseHelp => flag_Usage prog;; os_Exit 0
  end.

(** The map literal validTypes. *)
Definition validTypes : gmap string bool :=
  <["track" := true]> (<["album" := true]> (<["playlist" := true]> ∅)).

(** validTypes[key]: a missing key reads as false. *)
Definition validType (key : string) : bool := default false (validTypes !! key).

(** The two switch statements on the search type; neither has a default
    case. *)
Definition searchWithMenu (f : Flags) : Proc unit :=
  if String.eqb (searchType f) "track" then
    call (SearchTracksWithMenu (searchQuery f) (artistName f) (limit f)
            (showDetails f) (keepPlaying f) (autoPlay f)) ()
  else if String.eqb (searchType f) "album" then
    call (SearchAlbumsWithMenu (searchQuery f) (limit f)
            (showDetails f) (keepPlaying f) (autoPlay f)) ()
  else if String.eqb (searchType f) "playlist" then
    call (SearchPlaylistsWithMenu (searchQuery f) (limit f)
            (showDetails f) (keepPlaying f) (autoPlay f)) ()
  else mret ().

Definition searchPlain (f : Flags) : Proc unit :=
  if String.eqb (searchType f) "track" then
    call (SearchTracks (searchQuery f) (artistName f) (limit f)
            (showDetails f) (keepPlaying f) (autoPlay f)) ()
  else if String.eqb (searchType f) "album" then
    call (SearchAlbums (searchQuery f) (limit f)
            (showDetails f) (keepPlaying f) (autoPlay f)) ()
  else if String.eqb (searchType f) "playlist" then
    call (SearchPlaylists (searchQuery f) (limit f)
            (showDetails f) (keepPlaying f) (autoPlay f)) ()
  else mret ().

(** Lines 148-187 of main: the two validations, then the search. *)
Definition searchFlow (inv : Invocation) (f : Flags) : Proc unit :=
  if negb (validType (searchType f)) then
    Eprint ("Error: invalid search type '" +:+ searchType f
            +:+ "'. Must be one of: track, album, playlist" +:+ nl);;
    flag_Usage (arg0 inv)
  else if isEmpty (searchQuery f) then
    Eprint ("Error: missing search query" +:+ nl);;
    flag_Usage (arg0 inv)
  else if returnToMenu f then searchWithMenu f
  else searchPlain f.

(** Lines 140-144 of main: the interactive menu. *)
Definition runMenu (inv : Invocation) (f : Flags) : Proc unit :=
  call NewInteractiveMenu ();;
  call (SetKeepPlayingFlag (keepPlaying f)) ();;
  err ← call MenuRun (menuErr inv);
  match err with
  | Some e => Eprint ("Error running interactive menu: " +:+ e +:+ nl)
  | None => mret ()
  end.

(** The statements of main after flag.Parse, from the client
    initialisation on.  Each [return] of the source ends a branch. *)
Definition dispatch (inv : Invocation) (f : Flags) : Proc unit :=
  call GetSpotifyClient ();;
  if negb (isEmpty (userID f)) then call (GetProfile (userID f)) ()
  else if stopPlayback f then call StopCurrentlyPlaying ()
  else if interactive f then runMenu inv f
  else searchFlow inv f.

Definition main (inv : Invocation) : Proc unit :=
  checkEnvironmentVariables (environ inv);;
  f ← flag_Parse (arg0 inv) (parse inv);
  dispatch inv f.

(** The two lines that name a missing variable, as written. *)
Definition missingID : string := "Missing SPOTIFY_ID environment variable" +:+ nl.
Definition missingSecret : string :=
  "Missing SPOTIFY_SECRET environment variable" +:+ nl.

(** Both credentials are present in the environment. *)
Definition credentialsSet (env : gmap string string) : Prop :=
  os_Getenv env "SPOTIFY_ID" ≠ "" ∧ os_Getenv env "SPOTIFY_SECRET" ≠ "".

(** The same run with other values in the flag variables. *)
Definition withFlags (inv : Invocation) (f : Flags) : Invocation :=
  {| environ := environ inv; arg0 := arg0 inv; parse := Parsed f;
     menuErr := menuErr inv |}.

(** The condition under which the dispatcher reaches a search function. *)
Definition searches (f : Flags) : bool :=
  isEmpty (userID f) && negb (stopPlayback f) && negb (interactive f)
  && validType (searchType f) && negb (isEmpty (searchQuery f)).

(** The same run in another environment. *)
Definition withEnv (inv : Invocation) (env : gmap string string) : Invocation :=
  {| environ := env; arg0 := arg0 inv; parse := parse inv;
     menuErr := menuErr inv |}.

(** The test [f.Usage != ""] of the usage function. *)
Definition documented (f : Flag) : bool := negb (isEmpty (Usage f)).

(** Flags in the order flag.VisitAll visits them. *)
Definition byName (f g : Flag) : Prop := String.leb (Name f) (Name g) = true.

(** An environment with both credentials, and runs used as examples. *)
Definition envBoth : gmap string string :=
  <["SPOTIFY_ID" := "id"]> (<["SPOTIFY_SECRET" := "secret"]> ∅).

Definition run (env : gmap string string) (f : Flags) : Invocation :=
  {| environ := env; arg0 := "gspotty"; parse := Parsed f; menuErr := None |}.

Definition mkFlags (t q u : string) (i r s : bool) : Flags :=
  {| searchType := t; searchQuery := q; artistName := "Queen"; limit := 3;
     showDetails := false; interactive := i; returnToMenu := r;
     keepPlaying := true; autoPlay := true; stopPlayback := s; userID := u |}.

End Main.

(** ** scripts/play *)

Module Play.

(** What the script sees of the machine it runs on. *)
Record Shell := {
  scriptDir : string;                  (* the value given to SCRIPT_DIR *)
  isFile : string → bool;              (* the test [ -f path ] *)
  status : string → list string → Z    (* exit status of running a command *)
}.

Inductive ShEvent :=
| Echo (line : string)
| Exec (path : string) (argv : list string).

(** The expansion of $* inside double quotes: the positional parameters
    joined by a space (IFS is not changed by the script). *)
Definition star (args : list string) : string := String.concat " " args.

Definition GSPOTTY_PATH (sh : Shell) : string := scriptDir sh +:+ "/../gspotty".

Definition command (args : list string) : list string :=
  ["-t"; "track"; "-q"; star args; "-p"; "-k"].

(** The script: what it echoes and runs, and its exit status. *)
Definition play (sh : Shell) (args : list string) : list ShEvent * Z :=
  if (length args =? 0)%nat then
    ([Echo "Usage: play <search query>";
      Echo "Example: play Bohemian Rhapsody"], 1)
  else if negb (isFile sh (GSPOTTY_PATH sh)) then
    ([Echo ("Error: gspotty binary not found in " +:+ GSPOTTY_PATH sh);
      Echo "Please make sure you have built the application using 'make build'"],
     1)
  else
    let rc := status sh (GSPOTTY_PATH sh) (command args) in
    if rc =? 0 then
      ([Exec (GSPOTTY_PATH sh) (command args); Echo ("Playing: " +:+ star args)],
       0)
    else
      ([Exec (GSPOTTY_PATH sh) (command args);
        Echo "Error: Failed to play music"], 1).

(** The flag variables of gspotty after flag.Parse on the command line the
    script builds, -t track -q query -p -k: the type and the query are the
    words after -t and -q, the two boolean flags are set, everything else
    keeps its default. *)
Definition playFlags (query : string) : Main.Flags :=
  {| Main.searchType := "track"; Main.searchQuery := query;
     Main.artistName := ""; Main.limit := 5; Main.showDetails := false;
     Main.interactive := false; Main.returnToMenu := false;
     Main.keepPlaying := true; Main.autoPlay := true;
     Main.stopPlayback := false; Main.userID := "" |}.

(** The run of the binary that the script starts. *)
Definition gspotty (env : gmap string string) (path query : string)
  : Main.Invocation :=
  {| Main.environ := env; Main.arg0 := path;
     Main.parse := Main.Parsed (playFlags query); Main.menuErr := None |}.

(** A machine where the binary is built and behaves as main.go says. *)
Definition installed (env : gmap string string) : Shell :=
  {| scriptDir := "/opt/gspotty/scripts";
     isFile := λ p, bool_decide (p = "/opt/gspotty/scripts/../gspotty");
     status := λ path argv,
       exitStatus (Main.main (gspotty env path (default "" (argv !! 3%nat)))) |}.

Definition isExec (e : ShEvent) : bool :=
  match e with Exec _ _ => true | Echo _ => false end.

(** A machine where the binary is built and ends with status [rc]. *)
Definition built (rc : Z) : Shell :=
  {| scriptDir := "/opt/gspotty/scripts";
     isFile := λ p, bool_decide (p = "/opt/gspotty/scripts/../gspotty");
     status := λ _ _, rc |}.

End Play.

(** * Properties of the dispatcher *)

Module MainFacts.
Import GoFlag Main.

Lemma isEmpty_true (s : string) : isEmpty s = true ↔ s = "".
Proof. unfold isEmpty. apply bool_decide_eq_true. Qed.

Lemma isEmpty_false (s : string) : isEmpty s = false ↔ s ≠ "".
Proof. unfold isEmpty. apply bool_decide_eq_false. Qed.

(** With both credentials the check prints nothing and returns. *)
Lemma checkEnvironmentVariables_ok (env : gmap string string) :
  credentialsSet env → checkEnvironmentVariables env = ([], Done ()).
Proof.
  intros [Hid Hsecret]. unfold checkEnvironmentVariables.
  apply isEmpty_false in Hid, Hsecret. by rewrite Hid, Hsecret.
Qed.

(** With both credentials and a command line that parses, main is the
    dispatcher on the parsed flags. *)
Lemma main_dispatch (inv : Invocation) (f : Flags) :
  credentialsSet (environ inv) → parse inv = Parsed f →
  main inv = dispatch inv f.
Proof.
  intros Henv Hparse. unfold main.
  rewrite (checkEnvironmentVariables_ok _ Henv), Hparse. simpl.
  by destruct (dispatch inv f).
Qed.

(** The usage function only writes to standard error, and returns. *)
Lemma flag_Usage_stderr (prog : string) :
  flag_Usage prog
  = (Print Stderr <$> written Stderr (trace (flag_Usage prog)), Done ()).
Proof. by vm_compute. Qed.

Lemma flag_Usage_calls (prog : string) : calls (trace (flag_Usage prog)) = [].
Proof. by vm_compute. Qed.

(** The map validTypes holds exactly the three search types. *)
Lemma validType_true (t : string) :
  validType t = true ↔ t = "track" ∨ t = "album" ∨ t = "playlist".
Proof.
  unfold validType, validTypes. rewrite !lookup_insert, lookup_empty.
  repeat case_decide; subst; simpl; split; auto; try discriminate.
  intros [?|[?|?]]; congruence.
Qed.

Lemma validType_false (t : string) :
  validType t = false ↔ t ≠ "track" ∧ t ≠ "album" ∧ t ≠ "playlist".
Proof.
  rewrite <- not_true_iff_false, validType_true.
  split; [intros H; repeat split; intros ->; tauto | tauto].
Qed.

(** What main does once the first three tests of the dispatcher have
    failed. *)
Lemma main_searchFlow (inv : Invocation) (f : Flags) :
  credentialsSet (environ inv) → parse inv = Parsed f →
  userID f = "" → stopPlayback f = false → interactive f = false →
  main inv = (call GetSpotifyClient ();; searchFlow inv f).
Proof.
  intros Henv Hparse Hu Hs Hi. rewrite (main_dispatch _ _ Henv Hparse).
  unfold dispatch. by rewrite Hu, Hs, Hi.
Qed.

Lemma append_assoc (a b c : string) : (a +:+ b) +:+ c = a +:+ b +:+ c.
Proof.
  induction a as [|x a IH]; [reflexivity |].
  change (String x ((a +:+ b) +:+ c) = String x (a +:+ b +:+ c)).
  by rewrite IH.
Qed.

(** What the usage function writes, put together, is the usage text. *)
Lemma flag_Usage_text (prog : string) :
  output Stderr (trace (flag_Usage prog)) = usageText prog.
Proof.
  lazy -[String.append]. rewrite !append_assoc. reflexivity.
Qed.

Lemma flag_Usage_no_search (prog : string) :
  filter isSearch (trace (flag_Usage prog)) = [].
Proof. by vm_compute. Qed.

(** A message on standard error followed by the usage text, after the
    client initialisation. *)
Lemma complain_usage (prog msg : string) :
  (call GetSpotifyClient ();; Eprint msg;; flag_Usage prog)
  = (Call GetSpotifyClient :: Print Stderr msg :: trace (flag_Usage prog),
     Done ()).
Proof. by vm_compute. Qed.

Lemma output_call (fd : Stream) (c : ExtCall) (t : list Event) :
  output fd (Call c :: t) = output fd t.
Proof. reflexivity. Qed.

Lemma output_print (s : string) (t : list Event) :
  written Stderr t ≠ [] →
  output Stderr (Print Stderr s :: t) = s +:+ output Stderr t.
Proof.
  unfold output. change (written Stderr (Print Stderr s :: t))
    with (s :: written Stderr t).
  by destruct (written Stderr t).
Qed.

(** A line on standard error followed by what the usage function writes. *)
Lemma output_then_usage (prog s : string) :
  output Stderr (Print Stderr s :: trace (flag_Usage prog))
  = s +:+ usageText prog.
Proof.
  rewrite output_print; [by rewrite flag_Usage_text |]. by vm_compute.
Qed.

(** Such a run makes no other call, and its error output is the message
    and the usage text. *)
Lemma complaint_facts (prog msg : string) :
  calls (Call GetSpotifyClient :: Print Stderr msg :: trace (flag_Usage prog))
  = [GetSpotifyClient]
  ∧ filter isSearch
      (Call GetSpotifyClient :: Print Stderr msg :: trace (flag_Usage prog))
    = []
  ∧ output Stderr
      (Call GetSpotifyClient :: Print Stderr msg :: trace (flag_Usage prog))
    = msg +:+ usageText prog.
Proof.
  split; [by vm_compute |]. split; [by vm_compute |].
  rewrite output_call. apply output_then_usage.
Qed.

(** The run with an invalid search type, and the run with a valid type and
    an empty query. *)
Lemma run_invalid_type (inv : Invocation) (f : Flags) :
  credentialsSet (environ inv) → parse inv = Parsed f →
  userID f = "" → stopPlayback f = false → interactive f = false →
  validType (searchType f) = false →
  main inv
  = (Call GetSpotifyClient
       :: Print Stderr ("Error: invalid search type '" +:+ searchType f
                        +:+ "'. Must be one of: track, album, playlist" +:+ nl)
       :: trace (flag_Usage (arg0 inv)), Done ()).
Proof.
  intros Henv Hparse Hu Hs Hi Hv.
  rewrite (main_searchFlow _ _ Henv Hparse Hu Hs Hi). unfold searchFlow.
  rewrite Hv. simpl negb. cbv iota. by rewrite complain_usage.
Qed.

Lemma run_empty_query (inv : Invocation) (f : Flags) :
  credentialsSet (environ inv) → parse inv = Parsed f →
  userID f = "" → stopPlayback f = false → interactive f = false →
  validType (searchType f) = true → searchQuery f = "" →
  main inv
  = (Call GetSpotifyClient
       :: Print Stderr ("Error: missing search query" +:+ nl)
       :: trace (flag_Usage (arg0 inv)), Done ()).
Proof.
  intros Henv Hparse Hu Hs Hi Hv Hq.
  rewrite (main_searchFlow _ _ Henv Hparse Hu Hs Hi). unfold searchFlow.
  rewrite Hv, Hq. simpl negb. cbv iota.
  change (isEmpty "") with true. cbv iota. by rewrite complain_usage.
Qed.

(** After the two validations, one search function is called. *)
Lemma search_call (f : Flags) :
  validType (searchType f) = true →
  ∃ c, (if returnToMenu f then searchWithMenu f else searchPlain f)
       = ([Call c], Done ())
       ∧ isSearchCall c = true.
Proof.
  intros Hv. apply validType_true in Hv. unfold searchWithMenu, searchPlain.
  destruct Hv as [-> | [-> | ->]]; destruct (returnToMenu f);
    eexists; (split; [reflexivity | reflexivity]).
Qed.

Lemma run_search (inv : Invocation) (f : Flags) :
  credentialsSet (environ inv) → parse inv = Parsed f →
  userID f = "" → stopPlayback f = false → interactive f = false →
  validType (searchType f) = true → searchQuery f ≠ "" →
  ∃ c, main inv = ([Call GetSpotifyClient; Call c], Done ())
       ∧ isSearchCall c = true.
Proof.
  intros Henv Hparse Hu Hs Hi Hv Hq.
  rewrite (main_searchFlow _ _ Henv Hparse Hu Hs Hi). unfold searchFlow.
  apply isEmpty_false in Hq. rewrite Hv, Hq. simpl negb. cbv iota.
  destruct (search_call f Hv) as (c & -> & Hc). by exists c.
Qed.

(** The run of the interactive menu. *)
Lemma run_menu (inv : Invocation) (f : Flags) :
  credentialsSet (environ inv) → parse inv = Parsed f →
  userID f = "" → stopPlayback f = false → interactive f = true →
  main inv
  = ([Call GetSpotifyClient; Call NewInteractiveMenu;
      Call (SetKeepPlayingFlag (keepPlaying f)); Call MenuRun]
     ++ match menuErr inv with
        | Some e => [Print Stderr ("Error running interactive menu: "
                                   +:+ e +:+ nl)]
        | None => []
        end, Done ()).
Proof.
  intros Henv Hparse Hu Hs Hi. rewrite (main_dispatch _ _ Henv Hparse).
  unfold dispatch, runMenu. rewrite Hu, Hs, Hi. by destruct (menuErr inv).
Qed.

(** ** The routing order *)

(** C1: with credentials set, the dispatcher tries -u, then -s, then -i,
    then the search flow.  A non-empty -u gives the profile lookup and a
    return.  Otherwise -s gives the stop-playback call and a return, with
    no search call.  Otherwise -i runs the interactive menu: the menu is
    built, given the -k value and run, and its error, if any, is printed.
    Otherwise the search flow is entered: an invalid type, or a valid type
    with an empty query, gives its error line and the usage text on
    standard error and no further call; a valid type with a query gives
    one call of a search function. *)
Theorem C1_routing_order (inv : Invocation) (f : Flags) :
  credentialsSet (environ inv) → parse inv = Parsed f →
  (userID f ≠ "" →
     main inv = ([Call GetSpotifyClient; Call (GetProfile (userID f))], Done ()))
  ∧ (userID f = "" → stopPlayback f = true →
     main inv = ([Call GetSpotifyClient; Call StopCurrentlyPlaying], Done ())
     ∧ filter isSearch (trace (main inv)) = [])
  ∧ (userID f = "" → stopPlayback f = false → interactive f = true →
     main inv
     = ([Call GetSpotifyClient; Call NewInteractiveMenu;
         Call (SetKeepPlayingFlag (keepPlaying f)); Call MenuRun]
        ++ match menuErr inv with
           | Some e => [Print Stderr ("Error running interactive menu: "
                                      +:+ e +:+ nl)]
           | None => []
           end, Done ()))
  ∧ (userID f = "" → stopPlayback f = false → interactive f = false →
     (searchType f ≠ "track" ∧ searchType f ≠ "album"
      ∧ searchType f ≠ "playlist" →
        calls (trace (main inv)) = [GetSpotifyClient]
        ∧ output Stderr (trace (main inv))
          = ("Error: invalid search type '" +:+ searchType f
             +:+ "'. Must be one of: track, album, playlist" +:+ nl)
            +:+ usageText (arg0 inv))
     ∧ (searchType f = "track" ∨ searchType f = "album"
        ∨ searchType f = "playlist" →
        (searchQuery f = "" →
           calls (trace (main inv)) = [GetSpotifyClient]
           ∧ output Stderr (trace (main inv))
             = ("Error: missing search query" +:+ nl) +:+ usageText (arg0 inv))
        ∧ (searchQuery f ≠ "" →
           ∃ c, main inv = ([Call GetSpotifyClient; Call c], Done ())
                ∧ isSearchCall c = true))).
Proof.
  intros Henv Hparse. split; [| split; [| split]].
  - intros Hu. rewrite (main_dispatch _ _ Henv Hparse). unfold dispatch.
    apply isEmpty_false in Hu. by rewrite Hu.
  - intros Hu Hs. rewrite (main_dispatch _ _ Henv Hparse). unfold dispatch.
    by rewrite Hu, Hs.
  - by apply (run_menu inv f).
  - intros Hu Hs Hi. split.
    + intros Ht. apply validType_false in Ht.
      rewrite (run_invalid_type _ _ Henv Hparse Hu Hs Hi Ht). unfold trace.
      simpl fst. by destruct (complaint_facts (arg0 inv)
        ("Error: invalid search type '" +:+ searchType f
         +:+ "'. Must be one of: track, album, playlist" +:+ nl))
        as (? & _ & ?).
    + intros Ht. apply validType_true in Ht. split.
      * intros Hq. rewrite (run_empty_query _ _ Henv Hparse Hu Hs Hi Ht Hq).
        unfold trace. simpl fst.
        by destruct (complaint_facts (arg0 inv)
                       ("Error: missing search query" +:+ nl)) as (? & _ & ?).
      * intros Hq. by apply (run_search inv f).
Qed.

Lemma C1_routing_order_witness :
  credentialsSet envBoth
  ∧ main (run envBoth (mkFlags "track" "" "" false false true))
    = ([Call GetSpotifyClient; Call StopCurrentlyPlaying], Done ()).
Proof.
  split; [by vm_compute |].
  apply (C1_routing_order (run envBoth (mkFlags "track" "" "" false false true))
           (mkFlags "track" "" "" false false true));
    [by vm_compute | reflexivity | reflexivity | reflexivity].
Defined.

(** ** Missing credentials *)

(** A run with a missing credential is the credential report followed by
    os.Exit(1), whatever the command line is. *)
Lemma main_missing (inv : Invocation) :
  os_Getenv (environ inv) "SPOTIFY_ID" = ""
  ∨ os_Getenv (environ inv) "SPOTIFY_SECRET" = "" →
  main inv = (trace (checkEnvironmentVariables (environ inv)), Exited 1)
  ∧ forallb (isPrint Stdout) (trace (main inv)) = true.
Proof.
  intros H. unfold main, checkEnvironmentVariables.
  destruct (isEmpty (os_Getenv (environ inv) "SPOTIFY_ID")) eqn:Hid;
    destruct (isEmpty (os_Getenv (environ inv) "SPOTIFY_SECRET")) eqn:Hsecret;
    try (by vm_compute).
  apply isEmpty_false in Hid, Hsecret. tauto.
Qed.

Ltac empty_hyps :=
  repeat match goal with
    | H : isEmpty _ = true |- _ => apply isEmpty_true in H
    | H : isEmpty _ = false |- _ => apply isEmpty_false in H
    end.

(** Membership of a given line in a list of lines that computes. *)
Ltac member_iff :=
  split;
  [ intros Hin; try done; apply (bool_decide_pack _) in Hin;
    by vm_compute in Hin
  | intros Heq; try done; apply (bool_decide_unpack _); vm_compute; exact I ].

(** C2: when SPOTIFY_ID or SPOTIFY_SECRET is empty or unset, the program
    exits with status 1 having called nothing and written nothing to
    standard error, and its output names exactly the missing variables
    (both when both are missing). *)
Theorem C2_missing_credentials_exit (inv : Invocation) :
  os_Getenv (environ inv) "SPOTIFY_ID" = ""
  ∨ os_Getenv (environ inv) "SPOTIFY_SECRET" = "" →
  completion (main inv) = Exited 1
  ∧ exitStatus (main inv) = 1
  ∧ calls (trace (main inv)) = []
  ∧ written Stderr (trace (main inv)) = []
  ∧ (missingID ∈ written Stdout (trace (main inv))
     ↔ os_Getenv (environ inv) "SPOTIFY_ID" = "")
  ∧ (missingSecret ∈ written Stdout (trace (main inv))
     ↔ os_Getenv (environ inv) "SPOTIFY_SECRET" = "").
Proof.
  intros H. destruct (main_missing inv H) as [-> _].
  unfold exitStatus, completion, trace, checkEnvironmentVariables. simpl.
  destruct (isEmpty (os_Getenv (environ inv) "SPOTIFY_ID")) eqn:Hid;
    destruct (isEmpty (os_Getenv (environ inv) "SPOTIFY_SECRET")) eqn:Hsecret;
    try (apply isEmpty_false in Hid, Hsecret; tauto);
    empty_hyps;
    (split; [| split; [| split; [| split; [| split]]]]; try done; member_iff).
Qed.

Lemma C2_missing_credentials_exit_witness :
  exitStatus (main (run ∅ defaultFlags)) = 1
  ∧ missingID ∈ written Stdout (trace (main (run ∅ defaultFlags)))
  ∧ missingSecret ∈ written Stdout (trace (main (run ∅ defaultFlags))).
Proof.
  pose proof (C2_missing_credentials_exit (run ∅ defaultFlags)) as H.
  destruct H as (_ & Hexit & _ & _ & Hid & Hsecret); [by left |].
  split; [exact Hexit |].
  split; [by apply Hid | by apply Hsecret].
Defined.

(** C8: the credential check comes first.  With a credential missing the
    run does not depend on the command line at all (flags that parse,
    flags that do not): it is the credential report on standard output
    and exit status 1, with no call and nothing on standard error, where
    flag errors and the usage text would go. *)
Theorem C8_credentials_before_flags (inv inv' : Invocation) :
  os_Getenv (environ inv) "SPOTIFY_ID" = ""
  ∨ os_Getenv (environ inv) "SPOTIFY_SECRET" = "" →
  environ inv' = environ inv →
  main inv' = main inv
  ∧ exitStatus (main inv) = 1
  ∧ forallb (isPrint Stdout) (trace (main inv)) = true
  ∧ calls (trace (main inv)) = []
  ∧ written Stderr (trace (main inv)) = [].
Proof.
  intros H Henv.
  assert (H' : os_Getenv (environ inv') "SPOTIFY_ID" = ""
               ∨ os_Getenv (environ inv') "SPOTIFY_SECRET" = "")
    by (by rewrite Henv).
  destruct (main_missing inv H) as [Hmain Hout].
  destruct (main_missing inv' H') as [Hmain' _].
  split; [by rewrite Hmain, Hmain', Henv |].
  split; [by rewrite Hmain |].
  split; [exact Hout |].
  revert Hout. generalize (trace (main inv)). intros t.
  induction t as [|[[] s|c] t IH]; simpl; intros Ht; try done.
  apply IH in Ht. by destruct Ht.
Qed.

Lemma C8_credentials_before_flags_witness :
  main (run ∅ (mkFlags "album" "x" "someone" true true true))
  = main (run ∅ defaultFlags).
Proof.
  apply (C8_credentials_before_flags (run ∅ defaultFlags)
           (run ∅ (mkFlags "album" "x" "someone" true true true)));
    [by left | reflexivity].
Defined.

(** ** Validation errors *)

(** C3: with credentials set, -u empty, -s and -i unset, and a -t value
    other than track, album and playlist, the run is: client
    initialisation, one error line on standard error that quotes the
    value, the usage text; it returns and no search function is called.
    What reaches standard error is that line followed by the usage text. *)
Theorem C3_invalid_type_rejected (inv : Invocation) (f : Flags) :
  credentialsSet (environ inv) → parse inv = Parsed f →
  userID f = "" → stopPlayback f = false → interactive f = false →
  searchType f ≠ "track" → searchType f ≠ "album" →
  searchType f ≠ "playlist" →
  main inv
  = (Call GetSpotifyClient
       :: Print Stderr ("Error: invalid search type '" +:+ searchType f
                        +:+ "'. Must be one of: track, album, playlist" +:+ nl)
       :: trace (flag_Usage (arg0 inv)), Done ())
  ∧ filter isSearch (trace (main inv)) = []
  ∧ output Stderr (trace (main inv))
    = ("Error: invalid search type '" +:+ searchType f
       +:+ "'. Must be one of: track, album, playlist" +:+ nl)
      +:+ usageText (arg0 inv).
Proof.
  intros Henv Hparse Hu Hs Hi Ht Ha Hp.
  assert (Hv : validType (searchType f) = false) by (by apply validType_false).
  rewrite (run_invalid_type _ _ Henv Hparse Hu Hs Hi Hv).
  split; [reflexivity |]. unfold trace. simpl fst.
  by destruct (complaint_facts (arg0 inv)
    ("Error: invalid search type '" +:+ searchType f
     +:+ "'. Must be one of: track, album, playlist" +:+ nl)) as (_ & ? & ?).
Qed.

Lemma C3_invalid_type_rejected_witness :
  output Stderr
    (trace (main (run envBoth (mkFlags "foo" "anything" "" false false false))))
  = ("Error: invalid search type 'foo'. Must be one of: track, album, playlist"
     +:+ nl) +:+ usageText "gspotty".
Proof.
  apply (C3_invalid_type_rejected
           (run envBoth (mkFlags "foo" "anything" "" false false false))
           (mkFlags "foo" "anything" "" false false false));
    by vm_compute.
Defined.

(** C4: with credentials set, -u empty, -s and -i unset, a valid -t value
    and an empty -q value, the run is: client initialisation, the
    missing-query line on standard error, the usage text; it returns and
    no search function is called.  What reaches standard error is that
    line followed by the usage text. *)
Theorem C4_empty_query_rejected (inv : Invocation) (f : Flags) :
  credentialsSet (environ inv) → parse inv = Parsed f →
  userID f = "" → stopPlayback f = false → interactive f = false →
  searchType f = "track" ∨ searchType f = "album"
  ∨ searchType f = "playlist" →
  searchQuery f = "" →
  main inv
  = (Call GetSpotifyClient
       :: Print Stderr ("Error: missing search query" +:+ nl)
       :: trace (flag_Usage (arg0 inv)), Done ())
  ∧ filter isSearch (trace (main inv)) = []
  ∧ output Stderr (trace (main inv))
    = ("Error: missing search query" +:+ nl) +:+ usageText (arg0 inv).
Proof.
  intros Henv Hparse Hu Hs Hi Ht Hq. apply validType_true in Ht.
  rewrite (run_empty_query _ _ Henv Hparse Hu Hs Hi Ht Hq).
  split; [reflexivity |]. unfold trace. simpl fst.
  by destruct (complaint_facts (arg0 inv)
                 ("Error: missing search query" +:+ nl)) as (_ & ? & ?).
Qed.

Lemma C4_empty_query_rejected_witness :
  output Stderr
    (trace (main (run envBoth (mkFlags "track" "" "" false false false))))
  = ("Error: missing search query" +:+ nl) +:+ usageText "gspotty".
Proof.
  apply (C4_empty_query_rejected
           (run envBoth (mkFlags "track" "" "" false false false))
           (mkFlags "track" "" "" false false false));
    [by vm_compute | reflexivity | reflexivity | reflexivity | reflexivity
    | by left | reflexivity].
Defined.

(** C5, as the code behaves: on a validation error (invalid search type,
    or valid type with an empty query) main returns, no os.Exit is
    reached, and the exit status of the process is therefore 0. *)
Theorem C5_validation_error_returns (inv : Invocation) (f : Flags) :
  credentialsSet (environ inv) → parse inv = Parsed f →
  userID f = "" → stopPlayback f = false → interactive f = false →
  validType (searchType f) = false ∨ searchQuery f = "" →
  completion (main inv) = Done () ∧ exitStatus (main inv) = 0.
Proof.
  intros Henv Hparse Hu Hs Hi Hbad.
  rewrite (main_searchFlow _ _ Henv Hparse Hu Hs Hi). unfold searchFlow.
  destruct (validType (searchType f)) eqn:Hv; simpl negb; cbv iota.
  - destruct Hbad as [|Hq]; [done |]. rewrite Hq.
    change (isEmpty "") with true. cbv iota. by rewrite complain_usage.
  - by rewrite complain_usage.
Qed.

Lemma C5_validation_error_returns_witness :
  exitStatus (main (run envBoth (mkFlags "album" "" "" false false false))) = 0.
Proof.
  apply (C5_validation_error_returns
           (run envBoth (mkFlags "album" "" "" false false false))
           (mkFlags "album" "" "" false false false));
    [by vm_compute | reflexivity | reflexivity | reflexivity | reflexivity
    | by right].
Defined.

(** C5 as stated fails: the run with -t foo hits the invalid-type error
    and ends with exit status 0, not with a non-zero one. *)
Lemma C5_counterexample :
  validType "foo" = false
  ∧ ¬ (exitStatus
         (main (run envBoth (mkFlags "foo" "song" "" false false false)))
       ≠ 0).
Proof. split; [by vm_compute | intros H; apply H; by vm_compute]. Qed.

(** ** The search flow *)

(** C6: with a valid type and a non-empty query exactly one search
    function is called, chosen by the search type and the -r flag: the
    WithMenu variant when -r is set, the plain one otherwise; it gets the
    query, limit, details, keep-playing and auto-play values, and the
    artist filter for a track search only. *)
Theorem C6_one_search_call (inv : Invocation) (f : Flags) :
  credentialsSet (environ inv) → parse inv = Parsed f →
  userID f = "" → stopPlayback f = false → interactive f = false →
  validType (searchType f) = true → searchQuery f ≠ "" →
  let q := searchQuery f in
  let a := artistName f in
  let l := limit f in
  let d := showDetails f in
  let k := keepPlaying f in
  let p := autoPlay f in
  let calling c := main inv = ([Call GetSpotifyClient; Call c], Done ()) in
  (searchType f = "track" → returnToMenu f = true →
     calling (SearchTracksWithMenu q a l d k p))
  ∧ (searchType f = "album" → returnToMenu f = true →
     calling (SearchAlbumsWithMenu q l d k p))
  ∧ (searchType f = "playlist" → returnToMenu f = true →
     calling (SearchPlaylistsWithMenu q l d k p))
  ∧ (searchType f = "track" → returnToMenu f = false →
     calling (SearchTracks q a l d k p))
  ∧ (searchType f = "album" → returnToMenu f = false →
     calling (SearchAlbums q l d k p))
  ∧ (searchType f = "playlist" → returnToMenu f = false →
     calling (SearchPlaylists q l d k p))
  ∧ length (filter isSearch (trace (main inv))) = 1%nat.
Proof.
  intros Henv Hparse Hu Hs Hi Hv Hq. simpl.
  rewrite (main_searchFlow _ _ Henv Hparse Hu Hs Hi).
  unfold searchFlow, searchWithMenu, searchPlain.
  apply isEmpty_false in Hq. rewrite Hv, Hq. simpl negb. cbv iota.
  apply validType_true in Hv.
  split; [| split; [| split; [| split; [| split; [| split]]]]];
    try (by intros -> ->).
  destruct Hv as [-> | [-> | ->]]; by destruct (returnToMenu f).
Qed.

Lemma C6_one_search_call_witness :
  main (run envBoth (mkFlags "album" "Dark Side" "" false true false))
  = ([Call GetSpotifyClient;
      Call (SearchAlbumsWithMenu "Dark Side" 3 false true true)], Done ()).
Proof.
  pose proof (C6_one_search_call
                (run envBoth (mkFlags "album" "Dark Side" "" false true false))
                (mkFlags "album" "Dark Side" "" false true false)) as H.
  simpl in H.
  destruct H as (_ & Halbum & _); [by vm_compute | reflexivity | reflexivity
    | reflexivity | reflexivity | by vm_compute | by vm_compute |].
  by apply Halbum.
Defined.

(** ** Precedence among the flags *)

Lemma not_elem_of_two (c a b : ExtCall) : c ≠ a → c ≠ b → c ∉ [a; b].
Proof. intros Ha Hb. rewrite !elem_of_cons, elem_of_nil. tauto. Qed.

(** C9: a non-empty -u wins over everything else: the run is client
    initialisation and the profile lookup, whatever -s, -i and the search
    flags are, so neither stop-playback nor the menu nor a search is
    called; and with -u empty, -s wins over -i: the menu is not run. *)
Theorem C9_flag_precedence (inv : Invocation) (f : Flags) :
  credentialsSet (environ inv) → parse inv = Parsed f →
  (userID f ≠ "" →
     main inv = ([Call GetSpotifyClient; Call (GetProfile (userID f))], Done ())
     ∧ (StopCurrentlyPlaying ∉ calls (trace (main inv)))
     ∧ (NewInteractiveMenu ∉ calls (trace (main inv)))
     ∧ (MenuRun ∉ calls (trace (main inv)))
     ∧ filter isSearch (trace (main inv)) = [])
  ∧ (userID f = "" → stopPlayback f = true →
     main inv = ([Call GetSpotifyClient; Call StopCurrentlyPlaying], Done ())
     ∧ (NewInteractiveMenu ∉ calls (trace (main inv)))
     ∧ (MenuRun ∉ calls (trace (main inv)))).
Proof.
  intros Henv Hparse.
  rewrite (main_dispatch _ _ Henv Hparse). unfold dispatch.
  split.
  - intros Hne. apply isEmpty_false in Hne. rewrite Hne. simpl.
    split; [done |]. repeat split; try done; by apply not_elem_of_two.
  - intros -> ->. simpl.
    split; [done |]. split; by apply not_elem_of_two.
Qed.

Lemma C9_flag_precedence_witness :
  main (run envBoth (mkFlags "foo" "" "spotify" true true true))
  = ([Call GetSpotifyClient; Call (GetProfile "spotify")], Done ()).
Proof.
  pose proof (C9_flag_precedence
                (run envBoth (mkFlags "foo" "" "spotify" true true true))
                (mkFlags "foo" "" "spotify" true true true)) as H.
  destruct H as [Hu _]; [by vm_compute | reflexivity |].
  by apply Hu.
Defined.

(** ** Interactive mode *)

(** C10: with -i set, -u empty and -s unset, the run is: client
    initialisation, menu construction, SetKeepPlayingFlag with the -k
    value, the menu loop, and the menu's error on standard error if it
    returns one.  No search function is called and nothing is validated;
    replacing the type, query, artist, limit, details, auto-play and
    return-to-menu values by any others leaves the run unchanged. *)
Theorem C10_interactive_frame (inv : Invocation) (f : Flags) :
  credentialsSet (environ inv) → parse inv = Parsed f →
  userID f = "" → stopPlayback f = false → interactive f = true →
  main inv
  = ([Call GetSpotifyClient; Call NewInteractiveMenu;
      Call (SetKeepPlayingFlag (keepPlaying f)); Call MenuRun]
     ++ match menuErr inv with
        | Some e => [Print Stderr ("Error running interactive menu: "
                                   +:+ e +:+ nl)]
        | None => []
        end, Done ())
  ∧ filter isSearch (trace (main inv)) = []
  ∧ ∀ t q a l d p r,
      main (withFlags inv
              {| searchType := t; searchQuery := q; artistName := a;
                 limit := l; showDetails := d; interactive := true;
                 returnToMenu := r; keepPlaying := keepPlaying f;
                 autoPlay := p; stopPlayback := false; userID := "" |})
      = main inv.
Proof.
  intros Henv Hparse Hu Hs Hi.
  assert (Hmain : ∀ inv' f', environ inv' = environ inv →
            parse inv' = Parsed f' → menuErr inv' = menuErr inv →
            userID f' = "" → stopPlayback f' = false →
            interactive f' = true → keepPlaying f' = keepPlaying f →
            main inv'
            = ([Call GetSpotifyClient; Call NewInteractiveMenu;
                Call (SetKeepPlayingFlag (keepPlaying f)); Call MenuRun]
               ++ match menuErr inv with
                  | Some e => [Print Stderr ("Error running interactive menu: "
                                             +:+ e +:+ nl)]
                  | None => []
                  end, Done ())).
  { intros inv' f' He Hp Hm Hu' Hs' Hi' Hk.
    rewrite (main_dispatch inv' f'); [| by rewrite He | done].
    unfold dispatch, runMenu. rewrite Hu', Hs', Hi', Hk, Hm.
    by destruct (menuErr inv). }
  split; [by apply (Hmain inv f) |].
  split.
  - rewrite (Hmain inv f); try done. by destruct (menuErr inv).
  - intros t q a l d p r. rewrite (Hmain inv f); try done.
    by eapply Hmain.
Qed.

Lemma C10_interactive_frame_witness :
  main (run envBoth (mkFlags "foo" "" "" true false false))
  = ([Call GetSpotifyClient; Call NewInteractiveMenu;
      Call (SetKeepPlayingFlag true); Call MenuRun], Done ()).
Proof.
  apply (C10_interactive_frame
           (run envBoth (mkFlags "foo" "" "" true false false))
           (mkFlags "foo" "" "" true false false));
    [by vm_compute | reflexivity | reflexivity | reflexivity | reflexivity].
Defined.

End MainFacts.

(** * Properties of the play script *)

Module PlayFacts.
Import Play.

(** C7: without arguments the script exits with status 1; with arguments
    but no gspotty file it exits with status 1; in both cases it runs
    nothing.  Otherwise it runs the binary once, with -t track, -q and
    all arguments joined by spaces, -p and -k, and exits with status 1
    exactly when the binary's exit status is not 0 (and with 0 when it
    is). *)
Theorem C7_play_exit_status (sh : Shell) (args : list string) :
  (args = [] →
     (play sh args).2 = 1 ∧ filter isExec (play sh args).1 = [])
  ∧ (args ≠ [] → isFile sh (GSPOTTY_PATH sh) = false →
     (play sh args).2 = 1 ∧ filter isExec (play sh args).1 = [])
  ∧ (args ≠ [] → isFile sh (GSPOTTY_PATH sh) = true →
     filter isExec (play sh args).1
     = [Exec (GSPOTTY_PATH sh)
          ["-t"; "track"; "-q"; String.concat " " args; "-p"; "-k"]]
     ∧ ((play sh args).2 = 1
        ↔ status sh (GSPOTTY_PATH sh) (command args) ≠ 0)
     ∧ ((play sh args).2 = 0
        ↔ status sh (GSPOTTY_PATH sh) (command args) = 0)).
Proof.
  unfold play. split; [| split].
  - by intros ->.
  - intros Hargs Hfile. destruct args as [|a args]; [done |].
    simpl. by rewrite Hfile.
  - intros Hargs Hfile. destruct args as [|a args]; [done |].
    simpl length. change (S (length args) =? 0)%nat with false. cbv iota.
    rewrite Hfile. simpl negb. cbv iota. cbv zeta.
    destruct (Z.eqb_spec (status sh (GSPOTTY_PATH sh) (command (a :: args))) 0)
      as [Hrc | Hrc]; simpl; (split; [done |]); rewrite ?Hrc; split; split;
      intros; try done; try lia.
Qed.

End PlayFacts.


(** * Further properties of main.go *)

Module MainExtra.
Import GoFlag Main MainFacts.

Lemma flag_Usage_stdout (prog : string) :
  written Stdout (trace (flag_Usage prog)) = [].
Proof. by vm_compute. Qed.

(** A call is not among a few given ones. *)
Ltac not_in :=
  simpl; rewrite ?elem_of_cons, ?elem_of_nil;
  let H := fresh in intros H; decompose [or] H; done.

Lemma calls_print (fd : Stream) (s : string) (t : list Event) :
  calls (Print fd s :: t) = calls t.
Proof. reflexivity. Qed.

Lemma written_other (s : string) (t : list Event) :
  written Stdout (Print Stderr s :: t) = written Stdout t.
Proof. reflexivity. Qed.

Lemma search_print_call (t : list Event) :
  filter isSearch (Call GetSpotifyClient :: t) = filter isSearch t.
Proof. reflexivity. Qed.

Lemma search_print (fd : Stream) (s : string) (t : list Event) :
  filter isSearch (Print fd s :: t) = filter isSearch t.
Proof. reflexivity. Qed.

Lemma dispatch_facts (inv : Invocation) (f : Flags) :
  ∃ rest,
    dispatch inv f = (Call GetSpotifyClient :: rest, Done ())
    ∧ (GetSpotifyClient ∉ calls rest)
    ∧ written Stdout rest = []
    ∧ length (filter isSearch rest) = (if searches f then 1 else 0)%nat.
Proof.
  unfold dispatch, searches.
  destruct (isEmpty (userID f)); simpl negb; simpl andb; cbv iota.
  2: { eexists. split; [reflexivity |]. split; [not_in | done]. }
  destruct (stopPlayback f); simpl negb; simpl andb; cbv iota.
  { eexists. split; [reflexivity |]. split; [not_in | done]. }
  destruct (interactive f); simpl negb; simpl andb; cbv iota.
  { unfold runMenu. destruct (menuErr inv); eexists;
      (split; [reflexivity |]); (split; [not_in | done]). }
  unfold searchFlow.
  destruct (validType (searchType f)) eqn:Hv; simpl negb; cbv iota.
  2: { rewrite complain_usage. eexists. split; [reflexivity |].
       rewrite calls_print, written_other, search_print.
       rewrite flag_Usage_calls, flag_Usage_stdout, flag_Usage_no_search.
       split; [not_in | done]. }
  destruct (isEmpty (searchQuery f)); simpl negb; cbv iota.
  { rewrite complain_usage. eexists. split; [reflexivity |].
       rewrite calls_print, written_other, search_print.
       rewrite flag_Usage_calls, flag_Usage_stdout, flag_Usage_no_search.
       split; [not_in | done]. }
  destruct (search_call f Hv) as (c & -> & Hc).
  eexists. split; [reflexivity |].
  destruct c; try discriminate Hc; (split; [not_in | done]).
Qed.

(** A trace of standard-output lines holds no call. *)
Lemma stdout_only (t : list Event) :
  forallb (isPrint Stdout) t = true →
  calls t = [] ∧ filter isSearch t = [] ∧ written Stderr t = [].
Proof.
  induction t as [|[[] s|c] t IH]; simpl; intros Ht; try done.
  destruct (IH Ht) as (? & ? & ?). done.
Qed.

Lemma credentials_cases (env : gmap string string) :
  credentialsSet env
  ∨ (os_Getenv env "SPOTIFY_ID" = "" ∨ os_Getenv env "SPOTIFY_SECRET" = "").
Proof.
  unfold credentialsSet.
  destruct (decide (os_Getenv env "SPOTIFY_ID" = ""));
    destruct (decide (os_Getenv env "SPOTIFY_SECRET" = "")); tauto.
Qed.

Lemma searches_true (f : Flags) :
  searches f = true
  ↔ userID f = "" ∧ stopPlayback f = false ∧ interactive f = false
    ∧ (searchType f = "track" ∨ searchType f = "album"
       ∨ searchType f = "playlist")
    ∧ searchQuery f ≠ "".
Proof.
  unfold searches.
  rewrite !andb_true_iff, !negb_true_iff, validType_true, isEmpty_true,
    isEmpty_false.
  tauto.
Qed.

(** ** Exit status *)

(** With credentials set and a command line that parses, main returns on
    every path, so the exit status is 0 whatever the flags are and whatever
    the interactive menu reports: validation errors and a menu error are
    only printed. *)
Theorem exit_status_zero_after_parse (inv : Invocation) (f : Flags) :
  credentialsSet (environ inv) → parse inv = Parsed f →
  completion (main inv) = Done () ∧ exitStatus (main inv) = 0.
Proof.
  intros Henv Hparse. rewrite (main_dispatch _ _ Henv Hparse).
  destruct (dispatch_facts inv f) as (rest & -> & _). done.
Qed.

Lemma exit_status_zero_after_parse_witness :
  exitStatus
    (main {| environ := envBoth; arg0 := "gspotty";
             parse := Parsed (mkFlags "track" "" "" true false false);
             menuErr := Some "no active device" |}) = 0.
Proof.
  eapply exit_status_zero_after_parse; [by vm_compute | reflexivity].
Defined.

(** The two runs in which flag.Parse ends the process. *)
Lemma main_parse_failed (inv : Invocation) (msg : string) :
  credentialsSet (environ inv) → parse inv = ParseFailed msg →
  main inv
  = (Print Stderr (msg +:+ nl) :: trace (flag_Usage (arg0 inv)), Exited 2).
Proof.
  intros Henv Hparse. unfold main.
  rewrite (checkEnvironmentVariables_ok _ Henv), Hparse. by vm_compute.
Qed.

Lemma main_parse_help (inv : Invocation) :
  credentialsSet (environ inv) → parse inv = ParseHelp →
  main inv = (trace (flag_Usage (arg0 inv)), Exited 0).
Proof.
  intros Henv Hparse. unfold main.
  rewrite (checkEnvironmentVariables_ok _ Henv), Hparse. by vm_compute.
Qed.

(** With both credentials set, a command line that flag.Parse rejects ends
    the run before the client is initialised: no call is made, standard
    error holds the flag package's message line and then the usage text,
    and the exit status is 2.  A help request (-h, -help) likewise makes no
    call; standard error holds the usage text alone and the exit status
    is 0. *)
Theorem parse_failure_before_client (inv : Invocation) :
  credentialsSet (environ inv) →
  (∀ msg, parse inv = ParseFailed msg →
     calls (trace (main inv)) = []
     ∧ output Stderr (trace (main inv)) = (msg +:+ nl) +:+ usageText (arg0 inv)
     ∧ completion (main inv) = Exited 2)
  ∧ (parse inv = ParseHelp →
     calls (trace (main inv)) = []
     ∧ output Stderr (trace (main inv)) = usageText (arg0 inv)
     ∧ completion (main inv) = Exited 0).
Proof.
  intros Henv. split.
  - intros msg Hparse. rewrite (main_parse_failed _ _ Henv Hparse).
    unfold trace, completion. simpl fst. simpl snd.
    split; [apply (flag_Usage_calls (arg0 inv)) |]. split; [| done].
    apply output_then_usage.
  - intros Hparse. rewrite (main_parse_help _ Henv Hparse).
    split; [apply flag_Usage_calls |]. split; [| done].
    apply flag_Usage_text.
Qed.

Lemma parse_failure_before_client_witness :
  output Stderr
    (trace (main {| environ := envBoth; arg0 := "gspotty";
                    parse := ParseFailed "flag provided but not defined: -x";
                    menuErr := None |}))
  = ("flag provided but not defined: -x" +:+ nl) +:+ usageText "gspotty".
Proof.
  eapply (parse_failure_before_client
            {| environ := envBoth; arg0 := "gspotty";
               parse := ParseFailed "flag provided but not defined: -x";
               menuErr := None |});
    [by vm_compute | reflexivity].
Defined.

(** ** When a search happens *)

(** For a command line that parses, a search function is called exactly
    when both credentials are set, -u is empty, -s and -i are unset, the
    type is one of the three words and the query is not empty; and never
    more than one search call is made. *)
Theorem search_called_iff (inv : Invocation) (f : Flags) :
  parse inv = Parsed f →
  (filter isSearch (trace (main inv)) ≠ []
   ↔ credentialsSet (environ inv)
     ∧ userID f = "" ∧ stopPlayback f = false ∧ interactive f = false
     ∧ (searchType f = "track" ∨ searchType f = "album"
        ∨ searchType f = "playlist")
     ∧ searchQuery f ≠ "")
  ∧ (length (filter isSearch (trace (main inv))) ≤ 1)%nat.
Proof.
  intros Hparse. destruct (credentials_cases (environ inv)) as [Henv | Hmiss].
  - rewrite (main_dispatch _ _ Henv Hparse).
    destruct (dispatch_facts inv f) as (rest & -> & _ & _ & Hlen).
    unfold trace. simpl fst. rewrite search_print_call, <- searches_true.
    destruct (searches f); split; try lia.
    + split; [tauto |]. intros _ Hnil. by rewrite Hnil in Hlen.
    + split; [| intros [_ ?]; done]. intros Hne.
      destruct (filter isSearch rest); done.
  - destruct (main_missing inv Hmiss) as [_ Hout].
    apply stdout_only in Hout as (_ & -> & _).
    split; [| simpl; lia]. split; [done |].
    intros [[Hid Hsecret] _]. tauto.
Qed.

Lemma search_called_iff_witness :
  filter isSearch
    (trace (main (run envBoth (mkFlags "playlist" "workout" "" false false false))))
  ≠ [].
Proof.
  apply (search_called_iff
           (run envBoth (mkFlags "playlist" "workout" "" false false false))
           (mkFlags "playlist" "workout" "" false false false));
    [reflexivity |].
  split; [by vm_compute |]. repeat split; auto; by vm_compute.
Defined.

(** ** The client initialisation *)

(** With credentials set and a command line that parses, the first thing
    main does is initialise the client, and it does so once: also when the
    flags then fail validation, and when only a profile lookup or the
    interactive menu is asked for. *)
Theorem client_initialised_first (inv : Invocation) (f : Flags) :
  credentialsSet (environ inv) → parse inv = Parsed f →
  ∃ rest, trace (main inv) = Call GetSpotifyClient :: rest
          ∧ (GetSpotifyClient ∉ calls rest).
Proof.
  intros Henv Hparse. rewrite (main_dispatch _ _ Henv Hparse).
  destruct (dispatch_facts inv f) as (rest & -> & Hno & _).
  by exists rest.
Qed.

Lemma client_initialised_first_witness :
  ∃ rest,
    trace (main (run envBoth (mkFlags "foo" "" "" false false false)))
    = Call GetSpotifyClient :: rest
    ∧ (GetSpotifyClient ∉ calls rest).
Proof.
  eapply client_initialised_first; [by vm_compute | reflexivity].
Defined.

(** ** What main does with the credentials and with standard output *)

(** main uses the two credentials only to test whether they are empty:
    replacing the environment by one where the same variables are empty
    leaves the whole run unchanged.  In particular neither value is ever
    written out or passed to a call by main. *)
Theorem credentials_only_tested (inv : Invocation)
    (env' : gmap string string) :
  (os_Getenv env' "SPOTIFY_ID" = ""
   ↔ os_Getenv (environ inv) "SPOTIFY_ID" = "") →
  (os_Getenv env' "SPOTIFY_SECRET" = ""
   ↔ os_Getenv (environ inv) "SPOTIFY_SECRET" = "") →
  main (withEnv inv env') = main inv.
Proof.
  intros Hid Hsecret.
  assert (Eid : isEmpty (os_Getenv env' "SPOTIFY_ID")
                = isEmpty (os_Getenv (environ inv) "SPOTIFY_ID")).
  { apply eq_true_iff_eq. by rewrite !isEmpty_true. }
  assert (Esecret : isEmpty (os_Getenv env' "SPOTIFY_SECRET")
                    = isEmpty (os_Getenv (environ inv) "SPOTIFY_SECRET")).
  { apply eq_true_iff_eq. by rewrite !isEmpty_true. }
  unfold main, checkEnvironmentVariables, withEnv.
  cbn [environ parse arg0 menuErr]. rewrite Eid, Esecret.
  destruct (isEmpty (os_Getenv (environ inv) "SPOTIFY_ID"));
    destruct (isEmpty (os_Getenv (environ inv) "SPOTIFY_SECRET"));
    reflexivity.
Qed.

Lemma credentials_only_tested_witness :
  main (withEnv (run envBoth (mkFlags "album" "x" "" false false false))
          (<["SPOTIFY_ID" := "other id"]>
             (<["SPOTIFY_SECRET" := "other secret"]> ∅)))
  = main (run envBoth (mkFlags "album" "x" "" false false false)).
Proof.
  apply credentials_only_tested; by vm_compute.
Defined.

(** With both credentials set main itself writes nothing to standard
    output, whether flag.Parse accepts the command line, rejects it or
    sees a help request: the flag error, the validation errors, the usage
    text and the menu error all go to standard error. *)
Theorem stdout_silent (inv : Invocation) :
  credentialsSet (environ inv) →
  written Stdout (trace (main inv)) = [].
Proof.
  intros Henv. destruct (parse inv) as [f | msg |] eqn:Hparse.
  - rewrite (main_dispatch _ _ Henv Hparse).
    destruct (dispatch_facts inv f) as (rest & -> & _ & Hout & _).
    exact Hout.
  - rewrite (main_parse_failed _ _ Henv Hparse).
    apply (flag_Usage_stdout (arg0 inv)).
  - rewrite (main_parse_help _ Henv Hparse). apply flag_Usage_stdout.
Qed.

Lemma stdout_silent_witness :
  written Stdout
    (trace (main (run envBoth (mkFlags "track" "" "" false false false))))
  = [].
Proof. apply stdout_silent. by vm_compute. Defined.

(** ** The usage text *)

Section usage.
Implicit Types (f g : Flag) (l : list Flag).

Lemma byName_trans f g h : byName f g → byName g h → byName f h.
Proof.
  unfold byName. intros Hfg Hgh. apply Is_true_true.
  apply Is_true_true in Hfg, Hgh.
  exact (transitivity (R := String.le) Hfg Hgh).
Qed.

Lemma byName_total f g : String.leb (Name f) (Name g) = false → byName g f.
Proof.
  unfold byName. intros Hfg.
  destruct (String.leb_total (Name f) (Name g)); congruence.
Qed.

Lemma insertFlag_Forall g f l :
  byName g f → Forall (byName g) l → Forall (byName g) (insertFlag f l).
Proof.
  intros Hgf. induction 1 as [|h l Hgh Hl IH]; simpl.
  - by constructor.
  - destruct (String.leb (Name f) (Name h)); repeat constructor; done.
Qed.

Lemma insertFlag_sorted f l :
  StronglySorted byName l → StronglySorted byName (insertFlag f l).
Proof.
  induction 1 as [|g l Hl IH Hg]; simpl.
  - repeat constructor.
  - destruct (String.leb (Name f) (Name g)) eqn:Hfg.
    + constructor; [by constructor |].
      constructor; [done |].
      eapply Forall_impl; [exact Hg |].
      intros h Hgh. by eapply byName_trans.
    + constructor; [done |].
      apply insertFlag_Forall; [by apply byName_total | done].
  Qed.

Lemma sortFlags_sorted l : StronglySorted byName (sortFlags l).
Proof.
  induction l as [|f l IH]; simpl; [constructor | by apply insertFlag_sorted].
Qed.

(** Inserting in front of a sorted list whose elements are all after [f]. *)
Lemma insertFlag_front f l :
  Forall (byName f) l → StronglySorted byName l → insertFlag f l = f :: l.
Proof.
  intros Hall _. destruct Hall as [|g l Hfg _]; simpl; [done |].
  by rewrite Hfg.
Qed.

Lemma filter_bool (P : Flag → bool) f l :
  filter P (f :: l) = if P f then f :: filter P l else filter P l.
Proof. rewrite filter_cons. by destruct (P f). Qed.

Lemma Forall_filter_flags (Q : Flag → Prop) (P : Flag → bool) l :
  Forall Q l → Forall Q (filter P l).
Proof.
  induction 1 as [|g l Hg Hl IH]; [constructor |].
  rewrite filter_bool. destruct (P g); [by constructor | done].
Qed.

Lemma sorted_filter (P : Flag → bool) l :
  StronglySorted byName l → StronglySorted byName (filter P l).
Proof.
  induction 1 as [|g l Hl IH Hg]; [constructor |].
  rewrite filter_bool. destruct (P g); [| done].
  constructor; [done | by apply Forall_filter_flags].
Qed.

Lemma filter_insertFlag (P : Flag → bool) f l :
  StronglySorted byName l →
  filter P (insertFlag f l)
  = if P f then insertFlag f (filter P l) else filter P l.
Proof.
  induction 1 as [|g l Hl IH Hg]; simpl insertFlag.
  - rewrite filter_bool, filter_nil. by destruct (P f).
  - destruct (String.leb (Name f) (Name g)) eqn:Hfg.
    + rewrite (filter_bool P f). destruct (P f) eqn:HPf; [| done].
      symmetry. apply insertFlag_front.
      * apply Forall_filter_flags.
        constructor; [done |].
        eapply Forall_impl; [exact Hg |].
        intros h Hgh. by eapply byName_trans.
      * apply sorted_filter. by constructor.
    + rewrite !(filter_bool P g), IH.
      destruct (P g), (P f); simpl insertFlag; by rewrite ?Hfg.
Qed.

Lemma filter_sortFlags (P : Flag → bool) l :
  filter P (sortFlags l) = sortFlags (filter P l).
Proof.
  induction l as [|f l IH]; [done |].
  change (sortFlags (f :: l)) with (insertFlag f (sortFlags l)).
  rewrite filter_insertFlag by apply sortFlags_sorted.
  rewrite filter_bool, IH. by destruct (P f).
Qed.

Lemma forEach_documented l :
  forEach l usageLine = forEach (filter documented l) usageLine.
Proof.
  induction l as [|f l IH]; [done |].
  rewrite filter_bool. simpl forEach. rewrite IH.
  destruct (documented f) eqn:Hdoc; [done |].
  unfold usageLine. unfold documented in Hdoc. rewrite Hdoc. simpl when.
  by destruct (forEach (filter documented l) _).
Qed.

(** The options part of the usage text is the same whether or not the
    flags without a help text are defined: what flag.VisitAll passes to
    the function literal for such a flag produces no output, so the long
    flag names never show up in the usage text. *)
Theorem usage_skips_undocumented (fl : list Flag) :
  VisitAll fl usageLine = VisitAll (filter documented fl) usageLine.
Proof.
  unfold VisitAll. rewrite forEach_documented.
  by rewrite filter_sortFlags.
Qed.

End usage.

End MainExtra.


(** * Further properties of the play script *)

Module PlayExtra.
Import Play.

(** The four ways through the script. *)
Lemma play_cases (sh : Shell) (args : list string) :
  (args = []
   ∧ play sh args
     = ([Echo "Usage: play <search query>";
         Echo "Example: play Bohemian Rhapsody"], 1))
  ∨ (args ≠ [] ∧ isFile sh (GSPOTTY_PATH sh) = false
     ∧ play sh args
       = ([Echo ("Error: gspotty binary not found in " +:+ GSPOTTY_PATH sh);
           Echo "Please make sure you have built the application using 'make build'"],
          1))
  ∨ (args ≠ [] ∧ isFile sh (GSPOTTY_PATH sh) = true
     ∧ status sh (GSPOTTY_PATH sh) (command args) = 0
     ∧ play sh args
       = ([Exec (GSPOTTY_PATH sh) (command args);
           Echo ("Playing: " +:+ star args)], 0))
  ∨ (args ≠ [] ∧ isFile sh (GSPOTTY_PATH sh) = true
     ∧ status sh (GSPOTTY_PATH sh) (command args) ≠ 0
     ∧ play sh args
       = ([Exec (GSPOTTY_PATH sh) (command args);
           Echo "Error: Failed to play music"], 1)).
Proof.
  unfold play. destruct args as [|a args]; [by left |].
  right. simpl length. change (S (length args) =? 0)%nat with false. cbv iota.
  destruct (isFile sh (GSPOTTY_PATH sh)); simpl negb; cbv iota; [| by left].
  right. cbv zeta.
  destruct (Z.eqb_spec (status sh (GSPOTTY_PATH sh) (command (a :: args))) 0);
    [left | right]; done.
Qed.

(** The script ends with status 0 or 1 and nothing else; with 0 exactly
    when it was given arguments, found the binary and the binary ended
    with status 0; and it echoes the Playing line exactly in that case. *)
Theorem play_success_iff (sh : Shell) (args : list string) :
  ((play sh args).2 = 0 ∨ (play sh args).2 = 1)
  ∧ ((play sh args).2 = 0
     ↔ args ≠ [] ∧ isFile sh (GSPOTTY_PATH sh) = true
       ∧ status sh (GSPOTTY_PATH sh) (command args) = 0)
  ∧ (Echo ("Playing: " +:+ star args) ∈ (play sh args).1
     ↔ (play sh args).2 = 0).
Proof.
  destruct (play_cases sh args)
    as [(Ha & ->) | [(Ha & Hf & ->) | [(Ha & Hf & Hs & ->) | (Ha & Hf & Hs & ->)]]];
    simpl; (split; [auto |]); split; try (split; [done | tauto]);
    try (split; [done | intros (_ & ? & _); congruence]);
    try (split; [done |]; intros _; rewrite !elem_of_cons; auto);
    (split; [| done]); rewrite !elem_of_cons, elem_of_nil;
    intros [H | [H | []]]; discriminate H.
Qed.

(** With at least one argument on both sides, the script behaves the same
    on two argument lists that join to the same text: play a b and
    play "a b" are the same run. *)
Theorem play_joined_args (sh : Shell) (args args' : list string) :
  args ≠ [] → args' ≠ [] → star args = star args' →
  play sh args = play sh args'.
Proof.
  intros Ha Ha' Hstar. unfold play, command.
  destruct args as [|a args]; [done |].
  destruct args' as [|a' args']; [done |].
  simpl length. change (S (length args) =? 0)%nat with false.
  change (S (length args') =? 0)%nat with false. cbv iota.
  by rewrite Hstar.
Qed.

Lemma play_joined_args_witness :
  play (built 0) ["Bohemian"; "Rhapsody"] = play (built 0) ["Bohemian Rhapsody"].
Proof. apply play_joined_args; by vm_compute. Defined.

(** ** The script together with main.go *)

(** When the status of the binary is the one main.go gives for the command
    line the script builds (the calls into the other packages returning),
    the script reports by the credentials alone: with both set it echoes
    the Playing line and ends with status 0, even for an empty query, where
    main only printed the missing-query error and called no search
    function; with one missing it echoes the failure line and ends with
    status 1. *)
Theorem play_reports_credentials (env : gmap string string) (sh : Shell)
    (args : list string) :
  args ≠ [] → isFile sh (GSPOTTY_PATH sh) = true →
  status sh (GSPOTTY_PATH sh) (command args)
  = exitStatus (Main.main (gspotty env (GSPOTTY_PATH sh) (star args))) →
  (Main.credentialsSet env →
     play sh args
     = ([Exec (GSPOTTY_PATH sh) (command args);
         Echo ("Playing: " +:+ star args)], 0)
     ∧ (star args = "" →
        filter isSearch
          (trace (Main.main (gspotty env (GSPOTTY_PATH sh) (star args))))
        = []
        ∧ output Stderr
            (trace (Main.main (gspotty env (GSPOTTY_PATH sh) (star args))))
          = ("Error: missing search query" +:+ nl)
            +:+ Main.usageText (GSPOTTY_PATH sh)))
  ∧ (Main.os_Getenv env "SPOTIFY_ID" = ""
     ∨ Main.os_Getenv env "SPOTIFY_SECRET" = "" →
     play sh args
     = ([Exec (GSPOTTY_PATH sh) (command args);
         Echo "Error: Failed to play music"], 1)).
Proof.
  intros Ha Hf Hs.
  destruct (play_cases sh args)
    as [(? & _) | [(_ & Hf' & _) | [(_ & _ & Hs0 & Hplay)
                                   | (_ & _ & Hs1 & Hplay)]]];
    [done | congruence | |].
  - split.
    + intros Henv. split; [done |]. intros Hq. rewrite Hq.
      rewrite (MainFacts.run_empty_query _ (playFlags "")); [| done..].
      unfold trace. simpl fst.
      by destruct (MainFacts.complaint_facts (GSPOTTY_PATH sh)
                     ("Error: missing search query" +:+ nl)) as (_ & ? & ?).
    + intros Hmiss. rewrite Hs in Hs0.
      destruct (MainFacts.main_missing
                  (gspotty env (GSPOTTY_PATH sh) (star args)) Hmiss)
        as [Hmain _].
      by rewrite Hmain in Hs0.
  - split; [| done]. intros Henv. exfalso. apply Hs1. rewrite Hs.
    rewrite (MainFacts.main_dispatch _ (playFlags (star args))); [| done..].
    by destruct (MainExtra.dispatch_facts
                   (gspotty env (GSPOTTY_PATH sh) (star args))
                   (playFlags (star args))) as (rest & -> & _).
Qed.

Lemma play_reports_credentials_witness :
  play (installed Main.envBoth) [""]
  = ([Exec "/opt/gspotty/scripts/../gspotty" ["-t"; "track"; "-q"; ""; "-p"; "-k"];
      Echo "Playing: "], 0).
Proof.
  apply (play_reports_credentials Main.envBoth (installed Main.envBoth) [""]);
    by vm_compute.
Defined.

(** Whatever words the script is given, the binary it starts does one
    thing when the credentials are set and the joined query is not empty:
    a plain track search for that query with no artist filter, limit 5, no
    details, keep-playing and auto-play on.  No argument of the script can
    select the profile lookup, stop-playback or the menu, since each
    argument ends up inside the value of -q. *)
Theorem play_is_a_track_search (env : gmap string string)
    (path : string) (args : list string) :
  Main.credentialsSet env → star args ≠ "" →
  Main.main (gspotty env path (star args))
  = ([Call GetSpotifyClient;
      Call (SearchTracks (star args) "" 5 false true true)], Done ()).
Proof.
  intros Henv Hq.
  rewrite (MainFacts.main_dispatch _ (playFlags (star args))); [| done..].
  unfold Main.dispatch, Main.searchFlow, Main.searchPlain. simpl.
  apply MainFacts.isEmpty_false in Hq. by rewrite Hq.
Qed.

Lemma play_is_a_track_search_witness :
  Main.main (gspotty Main.envBoth "gspotty" (star ["-i"; "-s"]))
  = ([Call GetSpotifyClient; Call (SearchTracks "-i -s" "" 5 false true true)],
     Done ()).
Proof.
  apply (play_is_a_track_search Main.envBoth "gspotty" ["-i"; "-s"]);
    by vm_compute.
Defined.

End PlayExtra.
